(** * radio-browser-api: a shallow embedding of [src/lib.rs]

    The library resolves radio stations by tag through a pluggable
    [Cache] and an injected HTTP transport.  This file models
    - [RadioStation], [RadioBrowserError] and the [Cache] trait;
    - [MemoryCache], an [lru::LruCache] behind a mutex (sequentially:
      every call takes the lock for its whole duration, so a call is
      one atomic step on the cache state);
    - [RadioBrowserClient::search_by_tag] and [fetch_stations], in a small
      state / log / error monad, where the log records every cache
      lookup, every transport call and every cache store. *)

From Stdlib Require Import String Ascii List ZArith NArith Bool.
From Stdlib Require Import DecimalN Lia.
Import ListNotations.
Open Scope string_scope.

(** ** Data model *)

(** [Result<T, E>]. *)
Inductive result (A E : Type) : Type :=
| Ok (a : A)
| Err (e : E).
Arguments Ok {A E} a.
Arguments Err {A E} e.

(** [pub struct RadioStation] *)
Record RadioStation := mkRadioStation {
  name : string;
  url : string;
  tags : option string;
  country : option string;
  votes : option Z
}.

(** The failures a [reqwest::Error] can stand for on the paths used here:
    the request itself ([send]), reading the body ([text], [json]) and
    decoding the JSON body into the target type ([json]). *)
Inductive reqwest_error :=
| ReqConnect (detail : string)
| ReqBody (detail : string)
| ReqDecode (detail : string).

(** [pub enum RadioBrowserError] *)
Inductive RadioBrowserError :=
| RequestError (e : reqwest_error)
| ApiError (body : string).

(** A response as [send().await] yields it: the status code and the body,
    whose reading may still fail. *)
Record Response := mkResponse {
  status : Z;
  body : result string reqwest_error
}.

(** [StatusCode::is_success]: 200..=299. *)
Definition is_success (s : Z) : bool := (200 <=? s)%Z && (s <? 300)%Z.

(** ** Decimal rendering ([Display] for [usize]) *)

Fixpoint uint_to_string (d : Decimal.uint) : string :=
  match d with
  | Decimal.Nil => EmptyString
  | Decimal.D0 d => String "0" (uint_to_string d)
  | Decimal.D1 d => String "1" (uint_to_string d)
  | Decimal.D2 d => String "2" (uint_to_string d)
  | Decimal.D3 d => String "3" (uint_to_string d)
  | Decimal.D4 d => String "4" (uint_to_string d)
  | Decimal.D5 d => String "5" (uint_to_string d)
  | Decimal.D6 d => String "6" (uint_to_string d)
  | Decimal.D7 d => String "7" (uint_to_string d)
  | Decimal.D8 d => String "8" (uint_to_string d)
  | Decimal.D9 d => String "9" (uint_to_string d)
  end.

(** [format!("{}", limit)] for a [usize] limit. *)
Definition usize_to_string (n : N) : string := uint_to_string (N.to_uint n).

(** ** [lru::LruCache]

    The [lru] crate's cache (the version whose [LruCache::new] takes a
    plain [usize]), as its documentation describes it: [entries] holds the
    stored pairs from the most recently used to the least recently used;
    [get] of a present key moves it to the front; [put] of a present key
    replaces its value and moves it to the front; [put] of a new key into a
    full cache drops the last (least recently used) pair; a cache of
    capacity zero ignores [put]. *)
Record LruCache := mkLruCache {
  cap : N;
  entries : list (string * list RadioStation)
}.

Definition lru_new (capacity : N) : LruCache := mkLruCache capacity [].

Fixpoint lookup (k : string) (l : list (string * list RadioStation))
  : option (list RadioStation) :=
  match l with
  | [] => None
  | (k', v) :: l' => if String.eqb k' k then Some v else lookup k l'
  end.

Definition remove_key (k : string) (l : list (string * list RadioStation))
  : list (string * list RadioStation) :=
  filter (fun p => negb (String.eqb (fst p) k)) l.

Definition keys (c : LruCache) : list string := map fst (entries c).

(** [LruCache::get]: the value (cloned by the caller) and the new state. *)
Definition lru_get (k : string) (c : LruCache) : option (list RadioStation) * LruCache :=
  match lookup k (entries c) with
  | None => (None, c)
  | Some v => (Some v, mkLruCache (cap c) ((k, v) :: remove_key k (entries c)))
  end.

(** [LruCache::put] (its return value, the replaced value, is dropped by
    [MemoryCache::set]). *)
Definition lru_put (k : string) (v : list RadioStation) (c : LruCache) : LruCache :=
  if (cap c =? 0)%N then c
  else match lookup k (entries c) with
       | Some _ => mkLruCache (cap c) ((k, v) :: remove_key k (entries c))
       | None =>
           if (N.of_nat (length (entries c)) =? cap c)%N
           then mkLruCache (cap c) ((k, v) :: removelast (entries c))
           else mkLruCache (cap c) ((k, v) :: entries c)
       end.

(** ** The [Cache] trait and [MemoryCache] *)

(** [pub trait Cache]: a store whose state is threaded explicitly. *)
Class Cache (S : Type) := {
  cache_get : string -> S -> option (list RadioStation) * S;
  cache_set : string -> list RadioStation -> S -> S
}.

(** [pub struct MemoryCache { cache: Arc<Mutex<LruCache<..>>> }] *)
Record MemoryCache := mkMemoryCache { mc_cache : LruCache }.

(** [MemoryCache::new] *)
Definition MemoryCache_new (capacity : N) : MemoryCache := mkMemoryCache (lru_new capacity).

(** [impl Cache for MemoryCache]: [get] is [lock().get(key).cloned()],
    [set] is [lock().put(key, value)]. *)
#[global] Instance MemoryCache_Cache : Cache MemoryCache := {
  cache_get k m := let (o, c) := lru_get k (mc_cache m) in (o, mkMemoryCache c);
  cache_set k v m := mkMemoryCache (lru_put k v (mc_cache m))
}.

(** ** The lookup client *)

(** What a call does to its collaborators, in order. *)
Inductive event :=
| EvGet (key : string)                            (* [self.cache.get(key)] *)
| EvFetch (u : string)                            (* [self.client.get(u).send()] *)
| EvSet (key : string) (value : list RadioStation). (* [self.cache.set(key, value)] *)

(** [pub struct RadioBrowserClient]: the base URL and the transport
    ([reqwest::Client]: a URL to a response or a request failure).  The
    cache, shared through an [Arc], is the state threaded by [M]. *)
Record RadioBrowserClient := mkRadioBrowserClient {
  base_url : string;
  client : string -> result Response reqwest_error
}.

Section Client.

Context {S : Type} `{Cache S}.

(** [serde_json] decoding of a body into [Vec<RadioStation>]: the station
    list or the decoder's error message. *)
Variable decode : string -> result (list RadioStation) string.

(** An [async fn] returning [Result<_, RadioBrowserError>] over the cache
    state: the result, the new cache state and the log of the call. *)
Definition M (A : Type) : Type := S -> result A RadioBrowserError * S * list event.

Definition ret {A} (a : A) : M A := fun s => (Ok a, s, []).

Definition throw {A} (e : RadioBrowserError) : M A := fun s => (Err e, s, []).

(** [m?] followed by the rest of the body. *)
Definition bind {A B} (m : M A) (f : A -> M B) : M B :=
  fun s =>
    match m s with
    | (Ok a, s1, l1) => let '(r, s2, l2) := f a s1 in (r, s2, (l1 ++ l2)%list)
    | (Err e, s1, l1) => (Err e, s1, l1)
    end.

Notation "x <- m ;; k" := (bind m (fun x => k)) (at level 61, m at next level, right associativity).

(** [?] on a [reqwest::Error] result: [From] wraps it in [RequestError]. *)
Definition lift {A} (r : result A reqwest_error) : M A :=
  match r with
  | Ok a => ret a
  | Err e => throw (RequestError e)
  end.

Definition get_m (key : string) : M (option (list RadioStation)) :=
  fun s => let (o, s1) := cache_get key s in (Ok o, s1, [EvGet key]).

Definition set_m (key : string) (v : list RadioStation) : M unit :=
  fun s => (Ok tt, cache_set key v s, [EvSet key v]).

(** [self.client.get(url).send().await?] *)
Definition send (cl : RadioBrowserClient) (u : string) : M Response :=
  fun s => match client cl u with
           | Ok r => (Ok r, s, [EvFetch u])
           | Err e => (Err (RequestError e), s, [EvFetch u])
           end.

(** [Response::text] *)
Definition text (r : Response) : result string reqwest_error := body r.

(** [Response::json::<Vec<RadioStation>>]: read the body, then decode it;
    a decoding failure is a [reqwest::Error] too. *)
Definition json (r : Response) : result (list RadioStation) reqwest_error :=
  match body r with
  | Err e => Err e
  | Ok t => match decode t with
            | Ok v => Ok v
            | Err m => Err (ReqDecode m)
            end
  end.

(** [RadioBrowserClient::fetch_stations] *)
Definition fetch_stations (cl : RadioBrowserClient) (u : string) : M (list RadioStation) :=
  response <- send cl u ;;
  if negb (is_success (status response))
  then t <- lift (text response) ;; throw (ApiError t)
  else stations <- lift (json response) ;; ret stations.

(** [format!("search:{}:{}", tag, limit)] *)
Definition cache_key (tag : string) (limit : N) : string :=
  "search:" ++ tag ++ ":" ++ usize_to_string limit.

(** [format!("{}/json/stations/search?tag={}&limit={}", self.base_url, tag, limit)] *)
Definition search_url (cl : RadioBrowserClient) (tag : string) (limit : N) : string :=
  base_url cl ++ "/json/stations/search?tag=" ++ tag ++ "&limit=" ++ usize_to_string limit.

(** [RadioBrowserClient::search_by_tag] *)
Definition search_by_tag (cl : RadioBrowserClient) (tag : string) (limit : N)
  : M (list RadioStation) :=
  let key := cache_key tag limit in
  cached <- get_m key ;;
  match cached with
  | Some c => ret c
  | None =>
      let u := search_url cl tag limit in
      stations <- fetch_stations cl u ;;
      _ <- set_m key stations ;;
      ret stations
  end.

End Client.

(** The decoder used to run the scenarios of the crate's tests: it accepts
    the two bodies those tests serve. *)
Definition test_station : RadioStation :=
  mkRadioStation "Test Station" "http://test.com" None None (Some 100%Z).

Definition jstr (t : string) : string := String "034"%char (t ++ String "034"%char EmptyString).

(** The body of [test_search_with_cache]: one station, [tags] and
    [country] null. *)
Definition test_body : string :=
  "[{" ++ jstr "name" ++ ":" ++ jstr "Test Station" ++ "," ++ jstr "url" ++ ":" ++
  jstr "http://test.com" ++ "," ++ jstr "tags" ++ ":null," ++ jstr "country" ++
  ":null," ++ jstr "votes" ++ ":100}]".

Definition test_decode (t : string) : result (list RadioStation) string :=
  if String.eqb t test_body then Ok [test_station]
  else if String.eqb t "[]" then Ok []
  else Err "expected value at line 1 column 1".

(** A transport that answers every URL with one fixed response. *)
Definition fixed_client (st : Z) (b : string) : RadioBrowserClient :=
  mkRadioBrowserClient "http://127.0.0.1:8080" (fun _ => Ok (mkResponse st (Ok b))).

(** A cache holding one entry, under ["search:rock:5"]. *)
Definition hit_cache : MemoryCache :=
  mkMemoryCache (mkLruCache 10 [("search:rock:5", [test_station])]).

(** A transport stub whose every use is a failure. *)
Definition unreachable_client : RadioBrowserClient :=
  mkRadioBrowserClient "http://127.0.0.1:8080" (fun _ => Err (ReqConnect "connection refused")).

(** ** The in-memory LRU store *)

(** A call on a [MemoryCache]. *)
Inductive cache_op :=
| OpGet (k : string)
| OpSet (k : string) (v : list RadioStation).

Definition op_key (op : cache_op) : string :=
  match op with OpGet k => k | OpSet k _ => k end.

Definition run_op (m : MemoryCache) (op : cache_op) : MemoryCache :=
  match op with
  | OpGet k => snd (cache_get k m)
  | OpSet k v => cache_set k v m
  end.

Definition run_ops (m : MemoryCache) (ops : list cache_op) : MemoryCache :=
  fold_left run_op ops m.

Definition mkeys (m : MemoryCache) : list string := keys (mc_cache m).

Definition drop_key (k : string) (l : list string) : list string :=
  filter (fun x => negb (String.eqb x k)) l.

(** The keys named by a history of calls, from the most recently named to
    the least recently named, each once.  A [get] that misses names a key
    that is absent, so for the keys present in the store this is the order
    of their last access. *)
Definition recency_step (r : list string) (op : cache_op) : list string :=
  op_key op :: drop_key (op_key op) r.

Definition recency (ops : list cache_op) : list string := fold_left recency_step ops [].

(** [l1] is [l2] with some elements left out, in the same order. *)
Inductive sublist {A : Type} : list A -> list A -> Prop :=
| sublist_nil : sublist [] []
| sublist_skip x l1 l2 : sublist l1 l2 -> sublist l1 (x :: l2)
| sublist_keep x l1 l2 : sublist l1 l2 -> sublist (x :: l1) (x :: l2).

Definition lru_wf (c : LruCache) : Prop :=
  (length (entries c) <= N.to_nat (cap c))%nat /\ NoDup (keys c).

(** The value of the last [set] of each key in a history of calls. *)
Definition set_step (acc : string -> option (list RadioStation)) (op : cache_op)
  : string -> option (list RadioStation) :=
  match op with
  | OpGet _ => acc
  | OpSet k v => fun k' => if String.eqb k k' then Some v else acc k'
  end.

Definition last_set (ops : list cache_op) : string -> option (list RadioStation) :=
  fold_left set_step ops (fun _ => None).

(** Whether a string contains no colon. *)
Fixpoint no_colon (s : string) : bool :=
  match s with
  | EmptyString => true
  | String c s' => negb (Ascii.eqb c ":") && no_colon s'
  end.

(** *** The store's invariant

    At most [cap] pairs, distinct keys, and the keys ordered as the history
    of calls last named them. *)
Definition lru_inv (c : LruCache) (r : list string) : Prop :=
  lru_wf c /\ sublist (keys c) r.

(** ** Constructing a client *)

(** A client together with the cache it shares ([self.cache]). *)
Record Configured (S : Type) := mkConfigured {
  cfg_client : RadioBrowserClient;
  cfg_cache : S
}.
Arguments mkConfigured {S} cfg_client cfg_cache.
Arguments cfg_client {S} c.
Arguments cfg_cache {S} c.

Definition default_base_url : string := "https://de1.api.radio-browser.info".

(** [RadioBrowserClient::new]: the default host, the given transport
    ([reqwest::Client::new()]) and a fresh [MemoryCache::new(100)]. *)
Definition RadioBrowserClient_new (transport : string -> result Response reqwest_error)
  : Configured MemoryCache :=
  mkConfigured (mkRadioBrowserClient default_base_url transport) (MemoryCache_new 100).

(** [RadioBrowserClient::with_base_url] *)
Definition with_base_url {S} (c : Configured S) (b : string) : Configured S :=
  mkConfigured (mkRadioBrowserClient b (client (cfg_client c))) (cfg_cache c).

(** [RadioBrowserClient::with_cache]: [Self { cache, ..self }]. *)
Definition with_cache {S S'} (c : Configured S) (cache : S') : Configured S' :=
  mkConfigured (cfg_client c) cache.

(** [struct TestCache] of the test module: one slot, keys ignored. *)
Record TestCache := mkTestCache { data : option (list RadioStation) }.

(** [impl Cache for TestCache]: [get] clones the slot whatever the key,
    [set] overwrites the slot. *)
#[global] Instance TestCache_Cache : Cache TestCache := {
  cache_get _ t := (data t, t);
  cache_set _ v _ := mkTestCache (Some v)
}.

Arguments M S A : clear implicits.

(** ** Behaviour of the client *)

Section ClientFacts.

Context {S : Type} `{Cache S}.
Variable decode : string -> result (list RadioStation) string.

(** One fetch: it calls the transport once and leaves the cache alone. *)
Lemma fetch_stations_shape (cl : RadioBrowserClient) (u : string) (s : S) :
  exists r, fetch_stations decode cl u s = (r, s, [EvFetch u]).
Proof.
  unfold fetch_stations, bind, send.
  destruct (client cl u) as [resp | e]; simpl; [| eauto].
  destruct (negb (is_success (status resp))); unfold lift, text, json;
    [destruct (body resp) | destruct (body resp) as [t |]; [destruct (decode t) |]];
    simpl; eauto.
Qed.

(** The call on a miss: a lookup, one fetch of [search_url], and a store of
    the fetched list when the fetch succeeded. *)
Lemma search_by_tag_miss (cl : RadioBrowserClient) tag limit (s s1 : S) :
  cache_get (cache_key tag limit) s = (None, s1) ->
  search_by_tag decode cl tag limit s =
  match fetch_stations decode cl (search_url cl tag limit) s1 with
  | (Ok v, _, _) =>
      (Ok v, cache_set (cache_key tag limit) v s1,
       [EvGet (cache_key tag limit); EvFetch (search_url cl tag limit);
        EvSet (cache_key tag limit) v])
  | (Err e, _, _) =>
      (Err e, s1, [EvGet (cache_key tag limit); EvFetch (search_url cl tag limit)])
  end.
Proof.
  intros Hget. unfold search_by_tag at 1, bind at 1, get_m. rewrite Hget.
  destruct (fetch_stations_shape cl (search_url cl tag limit) s1) as [r Hf].
  unfold bind at 1. rewrite Hf. destruct r; reflexivity.
Qed.

End ClientFacts.

Example usize_to_string_ex :
  usize_to_string 0 = "0" /\ usize_to_string 5 = "5" /\ usize_to_string 120 = "120".
Proof. repeat split; reflexivity. Qed.

(** [test_search_with_cache], run on a [MemoryCache]: the second call is
    answered by the cache. *)
Example test_search_with_cache_run :
  let cl := fixed_client 200 test_body in
  let '(r1, m1, l1) := search_by_tag test_decode cl "test" 1 (MemoryCache_new 10) in
  let '(r2, _, l2) := search_by_tag test_decode cl "test" 1 m1 in
  r1 = Ok [test_station] /\ r2 = Ok [test_station] /\
  l1 = [EvGet "search:test:1"; EvFetch "http://127.0.0.1:8080/json/stations/search?tag=test&limit=1";
        EvSet "search:test:1" [test_station]] /\
  l2 = [EvGet "search:test:1"].
Proof. repeat split; reflexivity. Qed.

(** [test_api_error]: status 500 with an empty body. *)
Example test_api_error_run :
  fst (fst (search_by_tag test_decode (fixed_client 500 EmptyString) "test" 1 (MemoryCache_new 10)))
  = Err (ApiError EmptyString).
Proof. reflexivity. Qed.

Lemma lru_get_put (k : string) (v : list RadioStation) (c : LruCache) :
  (1 <= cap c)%N -> fst (lru_get k (lru_put k v c)) = Some v.
Proof.
  intros Hc. unfold lru_put.
  destruct (N.eqb_spec (cap c) 0) as [E | _]; [lia |].
  assert (Hl : forall l, lookup k ((k, v) :: l) = Some v)
    by (intros l; simpl; rewrite String.eqb_refl; reflexivity).
  destruct (lookup k (entries c));
    [| destruct (N.of_nat (length (entries c)) =? cap c)%N];
    unfold lru_get; simpl entries; rewrite Hl; reflexivity.
Qed.

Section ClientTheorems.

Context {S : Type} `{Cache S}.
Variable decode : string -> result (list RadioStation) string.

Lemma search_by_tag_on_hit (cl : RadioBrowserClient) tag limit (s s' : S) v :
  cache_get (cache_key tag limit) s = (Some v, s') ->
  search_by_tag decode cl tag limit s = (Ok v, s', [EvGet (cache_key tag limit)]).
Proof.
  intros Hget. unfold search_by_tag, bind, get_m. rewrite Hget. reflexivity.
Qed.

End ClientTheorems.

(** ** Claims on the lookup client *)

Section ClientClaims.

Context {S : Type} `{Cache S}.
Variable decode : string -> result (list RadioStation) string.

(** C1: when the cache's [get] on ["search:<tag>:<limit>"] returns a value
    [v], [search_by_tag] returns [Ok v] at once: the only thing it does is
    that lookup, so the transport is not called and [set] is not called. *)
Theorem search_by_tag_cache_hit (cl : RadioBrowserClient) tag limit (s s' : S) v :
  cache_get (cache_key tag limit) s = (Some v, s') ->
  search_by_tag decode cl tag limit s = (Ok v, s', [EvGet (cache_key tag limit)]).
Proof. apply search_by_tag_on_hit. Qed.

(** C2 (as amended): a success status whose body does not decode gives the
    [RequestError] variant wrapping the decoding error (the [?] on
    [response.json()] converts it through [From<reqwest::Error>]), not
    [ApiError]; nothing is stored. *)
Theorem search_by_tag_decode_failure (cl : RadioBrowserClient) tag limit (s s1 : S) r t m :
  cache_get (cache_key tag limit) s = (None, s1) ->
  client cl (search_url cl tag limit) = Ok r ->
  is_success (status r) = true ->
  body r = Ok t ->
  decode t = Err m ->
  search_by_tag decode cl tag limit s =
  (Err (RequestError (ReqDecode m)), s1,
   [EvGet (cache_key tag limit); EvFetch (search_url cl tag limit)]).
Proof.
  intros Hget Hcl Hok Hb Hd. rewrite (search_by_tag_miss decode cl tag limit s s1 Hget).
  unfold fetch_stations, bind, send. rewrite Hcl, Hok. simpl.
  unfold json. rewrite Hb, Hd. reflexivity.
Qed.

(** C3: a non-success status gives [ApiError] with the body text as read
    from the response; a success status whose body decodes to [vs] gives
    [Ok vs], exactly the decoded records, stored under the key. *)
Theorem search_by_tag_status_classification (cl : RadioBrowserClient) tag limit (s s1 : S) r t :
  cache_get (cache_key tag limit) s = (None, s1) ->
  client cl (search_url cl tag limit) = Ok r ->
  body r = Ok t ->
  (is_success (status r) = false ->
   search_by_tag decode cl tag limit s =
   (Err (ApiError t), s1, [EvGet (cache_key tag limit); EvFetch (search_url cl tag limit)])) /\
  (forall vs, is_success (status r) = true -> decode t = Ok vs ->
   search_by_tag decode cl tag limit s =
   (Ok vs, cache_set (cache_key tag limit) vs s1,
    [EvGet (cache_key tag limit); EvFetch (search_url cl tag limit);
     EvSet (cache_key tag limit) vs])).
Proof.
  intros Hget Hcl Hb. rewrite (search_by_tag_miss decode cl tag limit s s1 Hget).
  unfold fetch_stations, bind, send. rewrite Hcl. split.
  - intros Hs. rewrite Hs. simpl. unfold text. rewrite Hb. reflexivity.
  - intros vs Hs Hd. rewrite Hs. simpl. unfold json. rewrite Hb, Hd. reflexivity.
Qed.

(** C10: on a miss, the one URL handed to the transport is the plain
    concatenation of the base URL, ["/json/stations/search?tag="], the tag
    as given, ["&limit="] and the decimal limit: nothing in the tag is
    escaped. *)
Theorem search_by_tag_url_verbatim (cl : RadioBrowserClient) tag limit (s s1 : S) :
  cache_get (cache_key tag limit) s = (None, s1) ->
  snd (search_by_tag decode cl tag limit s) =
  EvGet (cache_key tag limit) ::
  EvFetch (base_url cl ++ "/json/stations/search?tag=" ++ tag ++ "&limit=" ++ usize_to_string limit) ::
  match fst (fst (search_by_tag decode cl tag limit s)) with
  | Ok v => [EvSet (cache_key tag limit) v]
  | Err _ => []
  end.
Proof.
  intros Hget. rewrite (search_by_tag_miss decode cl tag limit s s1 Hget).
  destruct (fetch_stations decode cl (search_url cl tag limit) s1) as [[[v | e] ?] ?];
    reflexivity.
Qed.

End ClientClaims.

Lemma memory_get_miss (k : string) (m : MemoryCache) :
  lookup k (entries (mc_cache m)) = None -> cache_get k m = (None, m).
Proof.
  intros Hl. destruct m as [c]. simpl. unfold lru_get. simpl in Hl. rewrite Hl. reflexivity.
Qed.

Lemma memory_get_set (k : string) (v : list RadioStation) (m : MemoryCache) :
  (1 <= cap (mc_cache m))%N -> fst (cache_get k (cache_set k v m)) = Some v.
Proof.
  intros Hc. simpl. pose proof (lru_get_put k v (mc_cache m) Hc) as E.
  destruct (lru_get k (lru_put k v (mc_cache m))). exact E.
Qed.

Section MemoryClientClaims.

Variable decode : string -> result (list RadioStation) string.

(** C5: with the in-memory cache, a miss followed by a failing fetch
    (request failure, non-success status, unreadable or undecodable body)
    returns that error; the cache is left as it was and [set] is never
    called. *)
Theorem search_by_tag_error_keeps_cache (cl : RadioBrowserClient) tag limit (m : MemoryCache) e :
  lookup (cache_key tag limit) (entries (mc_cache m)) = None ->
  fst (fst (fetch_stations decode cl (search_url cl tag limit) m)) = Err e ->
  search_by_tag decode cl tag limit m =
  (Err e, m, [EvGet (cache_key tag limit); EvFetch (search_url cl tag limit)]).
Proof.
  intros Hl Hf. rewrite (search_by_tag_miss decode cl tag limit m m (memory_get_miss _ _ Hl)).
  destruct (fetch_stations decode cl (search_url cl tag limit) m) as [[r ?] ?].
  simpl in Hf. subst r. reflexivity.
Qed.

(** C6: with the in-memory cache (capacity at least one), a miss whose
    fetch yields the empty list returns it and stores it; the next call
    with the same arguments returns the empty list with a single cache
    lookup, whatever the transport. *)
Theorem search_by_tag_caches_empty (cl : RadioBrowserClient) tag limit (m : MemoryCache) :
  (1 <= cap (mc_cache m))%N ->
  lookup (cache_key tag limit) (entries (mc_cache m)) = None ->
  fst (fst (fetch_stations decode cl (search_url cl tag limit) m)) = Ok [] ->
  exists m1,
    search_by_tag decode cl tag limit m =
    (Ok [], m1, [EvGet (cache_key tag limit); EvFetch (search_url cl tag limit);
                 EvSet (cache_key tag limit) []]) /\
    forall (cl' : RadioBrowserClient) decode', exists m2,
      search_by_tag decode' cl' tag limit m1 = (Ok [], m2, [EvGet (cache_key tag limit)]).
Proof.
  intros Hc Hl Hf. rewrite (search_by_tag_miss decode cl tag limit m m (memory_get_miss _ _ Hl)).
  destruct (fetch_stations decode cl (search_url cl tag limit) m) as [[r ?] ?].
  simpl in Hf. subst r.
  exists (cache_set (cache_key tag limit) [] m). split; [reflexivity |].
  intros cl' decode'.
  pose proof (memory_get_set (cache_key tag limit) [] m Hc) as Hg.
  destruct (cache_get (cache_key tag limit) (cache_set (cache_key tag limit) [] m))
    as [o m2] eqn:E.
  simpl in Hg. subst o. exists m2. apply search_by_tag_on_hit. exact E.
Qed.

End MemoryClientClaims.

(** ** The cache key *)

Lemma no_colon_uint (d : Decimal.uint) : no_colon (uint_to_string d) = true.
Proof. induction d; simpl; auto. Qed.

Lemma no_colon_with_colon (x y : string) : no_colon (x ++ String ":" y) = false.
Proof. induction x as [| c x IH]; simpl; [reflexivity | rewrite IH; apply andb_false_r]. Qed.

(** A string ending in [":" ++ d], with no colon in [d], is split at that
    colon in one way only. *)
Lemma split_at_last_colon (t1 t2 d1 d2 : string) :
  no_colon d1 = true -> no_colon d2 = true ->
  t1 ++ String ":" d1 = t2 ++ String ":" d2 -> t1 = t2 /\ d1 = d2.
Proof.
  revert t2. induction t1 as [| a t1 IH]; intros [| b t2] H1 H2 E; simpl in E.
  - injection E as E. auto.
  - injection E as Hb E. subst b d1. rewrite no_colon_with_colon in H1. discriminate.
  - injection E as Ha E. subst a d2. rewrite no_colon_with_colon in H2. discriminate.
  - injection E as Hab E. subst b. destruct (IH t2 H1 H2 E) as [-> ->]. auto.
Qed.

Lemma uint_to_string_inj (d1 d2 : Decimal.uint) :
  uint_to_string d1 = uint_to_string d2 -> d1 = d2.
Proof.
  revert d2. induction d1; intros []; simpl; intros E;
    try discriminate; try reflexivity; injection E as E; f_equal; auto.
Qed.

Lemma usize_to_string_inj (n1 n2 : N) : usize_to_string n1 = usize_to_string n2 -> n1 = n2.
Proof. intros E. apply DecimalN.Unsigned.to_uint_inj, uint_to_string_inj, E. Qed.

(** C4: the key is ["search:" ++ tag ++ ":" ++ limit]; it is a function of
    the arguments, and two different (tag, limit) pairs never share a key
    (the limit is the digits after the last colon); ("rock", 5) and
    ("rock", 6) give different keys. *)
Theorem cache_key_injective :
  (forall t1 l1 t2 l2, cache_key t1 l1 = cache_key t2 l2 <-> t1 = t2 /\ l1 = l2) /\
  cache_key "rock" 5 = "search:rock:5" /\
  cache_key "rock" 5 <> cache_key "rock" 6.
Proof.
  assert (Hinj : forall t1 l1 t2 l2, cache_key t1 l1 = cache_key t2 l2 <-> t1 = t2 /\ l1 = l2).
  { intros t1 l1 t2 l2. split; [| intros [-> ->]; reflexivity].
    unfold cache_key. simpl. intros E. repeat (injection E as E).
    destruct (split_at_last_colon t1 t2 _ _ (no_colon_uint _) (no_colon_uint _) E) as [-> Hd].
    split; [reflexivity | apply usize_to_string_inj, Hd]. }
  split; [exact Hinj | split; [reflexivity |]].
  intros E. apply Hinj in E. destruct E as [_ E]. discriminate.
Qed.

(** *** List facts *)

Section ListFacts.

Local Open Scope list_scope.

Lemma sublist_nil_l {A} (l : list A) : sublist [] l.
Proof. induction l; constructor; auto. Qed.

Lemma sublist_refl {A} (l : list A) : sublist l l.
Proof. induction l; [apply sublist_nil | apply sublist_keep; auto]. Qed.

Lemma sublist_trans {A} (l1 l2 l3 : list A) : sublist l1 l2 -> sublist l2 l3 -> sublist l1 l3.
Proof.
  intros H12 H23. revert l1 H12. induction H23; intros l0 H0.
  - inversion H0; constructor.
  - constructor. auto.
  - inversion H0; subst; [apply sublist_skip | apply sublist_keep]; auto.
Qed.

Lemma sublist_filter {A} (f : A -> bool) (l1 l2 : list A) :
  sublist l1 l2 -> sublist (filter f l1) (filter f l2).
Proof.
  induction 1; simpl; [constructor | destruct (f x); [apply sublist_skip |] | destruct (f x); [apply sublist_keep |]];
    auto.
Qed.

Lemma sublist_removelast {A} (l : list A) : sublist (removelast l) l.
Proof.
  induction l as [| a l IH]; [constructor |].
  destruct l as [| b l]; simpl; [apply sublist_skip, sublist_nil_l | apply sublist_keep, IH].
Qed.

Lemma sublist_In {A} (l1 l2 : list A) x : sublist l1 l2 -> In x l1 -> In x l2.
Proof. induction 1; simpl; intuition. Qed.

Lemma sublist_NoDup {A} (l1 l2 : list A) : sublist l1 l2 -> NoDup l2 -> NoDup l1.
Proof.
  induction 1; intros Hn; inversion Hn; subst; auto.
  constructor; [intros Hi; apply (sublist_In _ _ _ H) in Hi |]; auto.
Qed.

(** The last element of a sublist sits after all the others in the list. *)
Lemma sublist_snoc {A} (l r : list A) x :
  sublist (l ++ [x]) r -> exists pre post, r = pre ++ x :: post /\ sublist l pre.
Proof.
  intros H. remember (l ++ [x]) as lx eqn:E. revert l E.
  induction H as [| y l1 r H IH | y l1 r H IH]; intros l E.
  - destruct l; discriminate.
  - destruct (IH l E) as (pre & post & -> & Hs).
    exists (y :: pre), post. split; [reflexivity | apply sublist_skip; exact Hs].
  - destruct l as [| a l]; simpl in E; injection E as -> E.
    + subst l1. exists [], r. split; [reflexivity | apply sublist_nil].
    + destruct (IH l E) as (pre & post & -> & Hs).
      exists (a :: pre), post. split; [reflexivity | apply sublist_keep; exact Hs].
Qed.

Lemma lookup_None (k : string) l : lookup k l = None <-> ~ In k (map fst l).
Proof.
  induction l as [| [k' v] l IH]; simpl; [tauto |].
  destruct (String.eqb_spec k' k) as [-> | Hne]; [split; [discriminate | tauto] |].
  rewrite IH. intuition.
Qed.

Lemma lookup_Some (k : string) l v : lookup k l = Some v -> In k (map fst l).
Proof.
  induction l as [| [k' v'] l IH]; simpl; [discriminate |].
  destruct (String.eqb_spec k' k); auto.
Qed.

Lemma keys_remove_key (k : string) l : map fst (remove_key k l) = drop_key k (map fst l).
Proof.
  induction l as [| [k' v] l IH]; simpl; [reflexivity |].
  destruct (String.eqb k' k); simpl; rewrite IH; reflexivity.
Qed.

Lemma drop_key_notin (k : string) l : ~ In k l -> drop_key k l = l.
Proof.
  induction l as [| a l IH]; simpl; intros Hn; [reflexivity |].
  destruct (String.eqb_spec a k); [tauto | simpl; rewrite IH; tauto].
Qed.

Lemma drop_key_gone (k : string) l : ~ In k (drop_key k l).
Proof.
  unfold drop_key. rewrite filter_In. intros [_ E].
  rewrite String.eqb_refl in E. discriminate.
Qed.

Lemma drop_key_length_in (k : string) l : In k l -> (length (drop_key k l) < length l)%nat.
Proof.
  unfold drop_key. induction l as [| a l IH]; simpl; [tauto |]. intros Hi.
  destruct (String.eqb_spec a k) as [-> | Hne]; simpl.
  - pose proof (filter_length_le (fun x => negb (String.eqb x k)) l). lia.
  - destruct Hi as [-> | Hi]; [tauto |]. specialize (IH Hi). lia.
Qed.

Lemma map_removelast {A B} (f : A -> B) l : map f (removelast l) = removelast (map f l).
Proof.
  induction l as [| a l IH]; [reflexivity |].
  destruct l as [| b l]; [reflexivity |]. simpl in *. rewrite IH. reflexivity.
Qed.

Lemma length_removelast {A} (l : list A) : length (removelast l) = pred (length l).
Proof. rewrite removelast_firstn_len, length_firstn. lia. Qed.

End ListFacts.

Section LruInvariant.

Local Open Scope list_scope.

Lemma lru_inv_front (k : string) v c r :
  In k (keys c) -> lru_inv c r ->
  lru_inv (mkLruCache (cap c) ((k, v) :: remove_key k (entries c))) (k :: drop_key k r).
Proof.
  intros Hi [[Hlen Hnd] Hs]. unfold lru_inv, lru_wf, keys in *. simpl.
  rewrite keys_remove_key. split; [split |].
  - simpl. pose proof (drop_key_length_in k _ Hi) as Hd.
    rewrite length_map in Hd.
    rewrite <- (length_map fst (remove_key k (entries c))), keys_remove_key. lia.
  - constructor; [apply drop_key_gone | apply NoDup_filter, Hnd].
  - apply sublist_keep, sublist_filter, Hs.
Qed.

Lemma lru_inv_absent (k : string) c r :
  ~ In k (keys c) -> lru_inv c r -> sublist (keys c) (drop_key k r).
Proof.
  intros Hn [_ Hs]. rewrite <- (drop_key_notin k (keys c) Hn). apply sublist_filter, Hs.
Qed.

Lemma lru_get_inv (k : string) c r :
  lru_inv c r -> lru_inv (snd (lru_get k c)) (k :: drop_key k r).
Proof.
  intros Hinv. unfold lru_get.
  destruct (lookup k (entries c)) as [v |] eqn:Hl; simpl.
  - apply lru_inv_front; [exact (lookup_Some _ _ _ Hl) | exact Hinv].
  - apply lookup_None in Hl. split; [apply Hinv |].
    apply sublist_skip, lru_inv_absent; assumption.
Qed.

Lemma lru_put_inv (k : string) v c r :
  lru_inv c r -> lru_inv (lru_put k v c) (k :: drop_key k r).
Proof.
  intros Hinv. pose proof Hinv as [[Hlen Hnd] Hs]. unfold lru_put.
  destruct (N.eqb_spec (cap c) 0) as [Hc | Hc].
  - split; [exact (proj1 Hinv) |].
    rewrite Hc in Hlen. simpl in Hlen.
    destruct (entries c) eqn:E; [| simpl in Hlen; lia].
    unfold keys. rewrite E. apply sublist_nil_l.
  - destruct (lookup k (entries c)) as [v' |] eqn:Hl.
    + apply lru_inv_front; [exact (lookup_Some _ _ _ Hl) | exact Hinv].
    + apply lookup_None in Hl. pose proof (lru_inv_absent k c r Hl Hinv) as Hsd.
      unfold lru_inv, lru_wf, keys in *.
      destruct (N.eqb_spec (N.of_nat (length (entries c))) (cap c)) as [Hf | Hf];
        split; [split | | split |]; simpl.
      * rewrite length_removelast. lia.
      * rewrite map_removelast. constructor.
        -- intros Hi. apply Hl. exact (sublist_In _ _ _ (sublist_removelast _) Hi).
        -- exact (sublist_NoDup _ _ (sublist_removelast _) Hnd).
      * rewrite map_removelast. apply sublist_keep.
        exact (sublist_trans _ _ _ (sublist_removelast _) Hsd).
      * assert (length (entries c) <> N.to_nat (cap c)) by (intros E; apply Hf; lia). lia.
      * constructor; assumption.
      * apply sublist_keep, Hsd.
Qed.

Lemma run_ops_inv (ops : list cache_op) (m : MemoryCache) r :
  lru_inv (mc_cache m) r ->
  lru_inv (mc_cache (run_ops m ops)) (fold_left recency_step ops r).
Proof.
  revert m r. induction ops as [| op ops IH]; intros m r Hinv; [exact Hinv |].
  simpl. apply IH. destruct op as [k | k v]; simpl.
  - destruct m as [c]. simpl in *. destruct (lru_get k c) as [o c'] eqn:E. simpl.
    pose proof (lru_get_inv k c r Hinv) as H. rewrite E in H. exact H.
  - apply lru_put_inv, Hinv.
Qed.

Lemma run_ops_new_inv (capacity : N) (ops : list cache_op) :
  lru_inv (mc_cache (run_ops (MemoryCache_new capacity) ops)) (recency ops).
Proof.
  apply run_ops_inv. split; [split |]; simpl; [lia | constructor | constructor].
Qed.

End LruInvariant.

Lemma run_ops_cap (m : MemoryCache) (ops : list cache_op) :
  cap (mc_cache (run_ops m ops)) = cap (mc_cache m).
Proof.
  revert m. induction ops as [| [k | k v] ops IH]; intros m; simpl; [reflexivity | |];
    rewrite IH; destruct m as [c]; simpl.
  - unfold lru_get. destruct (lookup k (entries c)); reflexivity.
  - unfold lru_put. destruct (cap c =? 0)%N; [reflexivity |].
    destruct (lookup k (entries c)); [| destruct (_ =? _)%N]; reflexivity.
Qed.

Lemma lookup_In (k : string) l : In k (map fst l) -> exists v, lookup k l = Some v.
Proof.
  intros Hi. destruct (lookup k l) as [v |] eqn:E; [eauto |].
  apply lookup_None in E. contradiction.
Qed.

(** ** Claims on the in-memory store *)

(** C7 (as amended): from [MemoryCache::new(N)], after any sequence of
    [get]/[set] calls the store holds distinct keys, at most [N] of them;
    when [N >= 1] and the store is full, [set] of a new key removes exactly
    one key, the last one, which is the least recently accessed of the
    stored keys (every other stored key was named by a later call); a [get]
    on a stored key moves it to the front, so that with [N >= 2] the next
    [set] of a new key keeps it (with [N = 1] the single key is always the
    one removed). *)
Theorem memory_cache_lru (capacity : N) (ops : list cache_op) :
  let m := run_ops (MemoryCache_new capacity) ops in
  (NoDup (mkeys m) /\ (length (mkeys m) <= N.to_nat capacity)%nat) /\
  (forall k v, (1 <= capacity)%N -> ~ In k (mkeys m) ->
     length (mkeys m) = N.to_nat capacity ->
     exists kold l,
       mkeys m = (l ++ [kold])%list /\ mkeys (cache_set k v m) = k :: l /\
       ~ In kold (mkeys (cache_set k v m)) /\
       exists pre post, recency ops = (pre ++ kold :: post)%list /\
                        forall k', In k' l -> In k' pre) /\
  (forall k k' v, (2 <= capacity)%N -> In k (mkeys m) -> ~ In k' (mkeys m) ->
     In k (mkeys (cache_set k' v (run_op m (OpGet k))))).
Proof.
  intros m. pose proof (run_ops_new_inv capacity ops) as [[Hlen Hnd] Hs].
  pose proof (run_ops_cap (MemoryCache_new capacity) ops) as Hcap. simpl in Hcap.
  fold m in Hlen, Hnd, Hs, Hcap.
  unfold mkeys, keys in *. destruct m as [[c es]]. simpl in *. subst c.
  split; [split; [exact Hnd | rewrite length_map; exact Hlen] | split].
  - intros k v H1 Hk Hfull. rewrite length_map in Hfull.
    assert (Hne : map fst es <> []) by (destruct es; simpl in *; [lia | discriminate]).
    set (kold := last (map fst es) EmptyString).
    set (l := removelast (map fst es)).
    assert (Hsplit : map fst es = (l ++ [kold])%list) by apply app_removelast_last, Hne.
    assert (Hset : map fst (entries (lru_put k v (mkLruCache capacity es))) = k :: l).
    { unfold lru_put. simpl.
      destruct (N.eqb_spec capacity 0) as [E | _]; [lia |].
      destruct (lookup k es) eqn:Hl; [apply lookup_Some in Hl; contradiction |].
      rewrite Hfull, N2Nat.id, N.eqb_refl. simpl. rewrite map_removelast. reflexivity. }
    exists kold, l. split; [exact Hsplit | split; [exact Hset | split]].
    + rewrite Hset. intros [E | Hi].
      * apply Hk. rewrite E, Hsplit. apply in_or_app. right. left. reflexivity.
      * rewrite Hsplit in Hnd. apply NoDup_remove_2 in Hnd. rewrite app_nil_r in Hnd.
        contradiction.
    + rewrite Hsplit in Hs. destruct (sublist_snoc _ _ _ Hs) as (pre & post & E & Hpre).
      exists pre, post. split; [exact E |]. intros k' Hi. exact (sublist_In _ _ _ Hpre Hi).
  - intros k k' v H2 Hk Hk'. destruct (lookup_In k es Hk) as [v0 Hv0].
    unfold run_op. simpl. unfold lru_get. simpl. rewrite Hv0. simpl.
    unfold lru_put. cbn [cap entries].
    destruct (N.eqb_spec capacity 0) as [E | _]; [lia |].
    assert (Hnot : lookup k' ((k, v0) :: remove_key k es) = None).
    { apply lookup_None. simpl. rewrite keys_remove_key. intros [E | Hi].
      - subst k'. contradiction.
      - apply Hk'. unfold drop_key in Hi. apply filter_In in Hi. apply Hi. }
    rewrite Hnot.
    destruct (N.eqb_spec (N.of_nat (length ((k, v0) :: remove_key k es))) capacity) as [Hf | _];
      simpl; [| auto].
    destruct (remove_key k es) as [| p rest]; simpl in Hf; [lia |].
    right. left. reflexivity.
Qed.

(** C8: [MemoryCache::new(0)] holds nothing after any sequence of calls:
    every [get] answers [None] and a [set] leaves it empty.  All the
    operations are total, so no call fails. *)
Theorem memory_cache_zero_capacity (ops : list cache_op) (k : string) (v : list RadioStation) :
  let m := run_ops (MemoryCache_new 0) ops in
  mkeys m = [] /\ fst (cache_get k m) = None /\ mkeys (cache_set k v m) = [].
Proof.
  intros m. pose proof (run_ops_new_inv 0 ops) as [[Hlen _] _].
  pose proof (run_ops_cap (MemoryCache_new 0) ops) as Hcap. simpl in Hcap.
  fold m in Hlen, Hcap. destruct m as [[c es]]. simpl in *. subst c.
  destruct es; simpl in Hlen; [| lia].
  repeat split; reflexivity.
Qed.

(** C9 (as amended): in a [MemoryCache] of capacity at least one, [get k]
    right after [set(k, v)] returns [v] itself, whatever was stored under
    [k] before (a capacity-zero cache returns [None]). *)
Theorem memory_cache_set_get (k : string) (v : list RadioStation) (m : MemoryCache) :
  (1 <= cap (mc_cache m))%N -> fst (cache_get k (cache_set k v m)) = Some v.
Proof. apply memory_get_set. Qed.

(** ** Counterexamples *)

(** C2: a success status with a body that is not a station list gives
    [RequestError], not [ApiError]. *)
Lemma search_by_tag_decode_error_not_api_error :
  fst (fst (search_by_tag test_decode (fixed_client 200 "<html>") "rock" 5 (MemoryCache_new 10)))
  = Err (RequestError (ReqDecode "expected value at line 1 column 1")) /\
  ~ (exists b, fst (fst (search_by_tag test_decode (fixed_client 200 "<html>") "rock" 5
                           (MemoryCache_new 10))) = Err (ApiError b)).
Proof. split; [reflexivity | intros [b E]; vm_compute in E; discriminate]. Qed.

(** C7: with capacity 1, a [get] on the stored key does not keep it from
    the next eviction. *)
Lemma memory_cache_capacity_one_get_no_protection :
  let m := run_op (run_ops (MemoryCache_new 1) [OpSet "a" []]) (OpGet "a") in
  In "a" (mkeys m) /\ ~ In "a" (mkeys (cache_set "b" [] m)).
Proof. vm_compute. split; [left; reflexivity | intros [E | []]; discriminate]. Qed.

(** C9: with capacity 0, [get] right after [set] returns nothing. *)
Lemma memory_cache_zero_capacity_set_get :
  fst (cache_get "k" (cache_set "k" [test_station] (MemoryCache_new 0))) = None.
Proof. reflexivity. Qed.

(** ** Witnesses: the claims' hypotheses met at concrete inputs *)

Lemma search_by_tag_cache_hit_witness :
  cache_get (cache_key "rock" 5) hit_cache = (Some [test_station], hit_cache) /\
  search_by_tag test_decode unreachable_client "rock" 5 hit_cache =
  (Ok [test_station], hit_cache, [EvGet (cache_key "rock" 5)]).
Proof.
  split; [reflexivity |].
  apply (search_by_tag_cache_hit test_decode unreachable_client "rock" 5 hit_cache hit_cache).
  reflexivity.
Defined.

Lemma search_by_tag_decode_failure_witness :
  search_by_tag test_decode (fixed_client 200 "<html>") "rock" 5 (MemoryCache_new 10) =
  (Err (RequestError (ReqDecode "expected value at line 1 column 1")), MemoryCache_new 10,
   [EvGet (cache_key "rock" 5); EvFetch (search_url (fixed_client 200 "<html>") "rock" 5)]).
Proof.
  apply (search_by_tag_decode_failure test_decode (fixed_client 200 "<html>") "rock" 5
           (MemoryCache_new 10) (MemoryCache_new 10) (mkResponse 200 (Ok "<html>")) "<html>");
    reflexivity.
Defined.

Lemma search_by_tag_status_classification_witness :
  search_by_tag test_decode (fixed_client 500 "server error") "test" 1 (MemoryCache_new 10) =
  (Err (ApiError "server error"), MemoryCache_new 10,
   [EvGet (cache_key "test" 1); EvFetch (search_url (fixed_client 500 "server error") "test" 1)]) /\
  search_by_tag test_decode (fixed_client 200 test_body) "test" 1 (MemoryCache_new 10) =
  (Ok [test_station], cache_set (cache_key "test" 1) [test_station] (MemoryCache_new 10),
   [EvGet (cache_key "test" 1); EvFetch (search_url (fixed_client 200 test_body) "test" 1);
    EvSet (cache_key "test" 1) [test_station]]) /\
  name test_station = "Test Station" /\ url test_station = "http://test.com" /\
  votes test_station = Some 100%Z /\ tags test_station = None /\ country test_station = None.
Proof.
  split; [| split; [| repeat split]].
  - apply (search_by_tag_status_classification test_decode (fixed_client 500 "server error")
             "test" 1 (MemoryCache_new 10) (MemoryCache_new 10)
             (mkResponse 500 (Ok "server error")) "server error"); reflexivity.
  - apply (search_by_tag_status_classification test_decode (fixed_client 200 test_body)
             "test" 1 (MemoryCache_new 10) (MemoryCache_new 10)
             (mkResponse 200 (Ok test_body)) test_body); reflexivity.
Defined.

Lemma search_by_tag_error_keeps_cache_witness :
  search_by_tag test_decode unreachable_client "jazz" 5 hit_cache =
  (Err (RequestError (ReqConnect "connection refused")), hit_cache,
   [EvGet (cache_key "jazz" 5); EvFetch (search_url unreachable_client "jazz" 5)]) /\
  search_by_tag test_decode (fixed_client 404 "not found") "pop" 5 hit_cache =
  (Err (ApiError "not found"), hit_cache,
   [EvGet (cache_key "pop" 5); EvFetch (search_url (fixed_client 404 "not found") "pop" 5)]).
Proof.
  split.
  - apply (search_by_tag_error_keeps_cache test_decode unreachable_client "jazz" 5 hit_cache);
      reflexivity.
  - apply (search_by_tag_error_keeps_cache test_decode (fixed_client 404 "not found") "pop" 5
             hit_cache); reflexivity.
Defined.

Lemma search_by_tag_caches_empty_witness :
  exists m1,
    search_by_tag test_decode (fixed_client 200 "[]") "jazz" 5 hit_cache =
    (Ok [], m1, [EvGet (cache_key "jazz" 5); EvFetch (search_url (fixed_client 200 "[]") "jazz" 5);
                 EvSet (cache_key "jazz" 5) []]) /\
    forall (cl' : RadioBrowserClient) decode', exists m2,
      search_by_tag decode' cl' "jazz" 5 m1 = (Ok [], m2, [EvGet (cache_key "jazz" 5)]).
Proof.
  apply (search_by_tag_caches_empty test_decode (fixed_client 200 "[]") "jazz" 5 hit_cache);
    [simpl; lia | reflexivity | reflexivity].
Defined.

Lemma memory_cache_lru_witness :
  let m := run_ops (MemoryCache_new 2) [OpSet "a" []; OpSet "b" [test_station]] in
  (exists kold l,
     mkeys m = (l ++ [kold])%list /\ mkeys (cache_set "c" [] m) = "c" :: l /\
     ~ In kold (mkeys (cache_set "c" [] m)) /\
     exists pre post, recency [OpSet "a" []; OpSet "b" [test_station]] = (pre ++ kold :: post)%list /\
                      forall k', In k' l -> In k' pre) /\
  In "a" (mkeys (cache_set "c" [] (run_op m (OpGet "a")))).
Proof.
  pose proof (memory_cache_lru 2 [OpSet "a" []; OpSet "b" [test_station]]) as H.
  cbv zeta in H |- *. destruct H as [_ [Hev Hpr]]. split.
  - apply Hev; [lia | vm_compute; intros [E | [E | []]]; discriminate | reflexivity].
  - apply Hpr; [lia | vm_compute; right; left; reflexivity
                | vm_compute; intros [E | [E | []]]; discriminate].
Defined.

Lemma memory_cache_set_get_witness :
  fst (cache_get "k" (cache_set "k" [test_station] hit_cache)) = Some [test_station].
Proof. apply memory_cache_set_get. simpl. lia. Defined.

Lemma search_by_tag_url_verbatim_witness :
  cache_get (cache_key "rock & roll=1" 5) (MemoryCache_new 10) = (None, MemoryCache_new 10) /\
  snd (search_by_tag test_decode (fixed_client 200 "[]") "rock & roll=1" 5 (MemoryCache_new 10)) =
  [EvGet "search:rock & roll=1:5";
   EvFetch "http://127.0.0.1:8080/json/stations/search?tag=rock & roll=1&limit=5";
   EvSet "search:rock & roll=1:5" []].
Proof.
  assert (Hget : cache_get (cache_key "rock & roll=1" 5) (MemoryCache_new 10)
                 = (None, MemoryCache_new 10)) by reflexivity.
  split; [exact Hget |].
  rewrite (search_by_tag_url_verbatim test_decode (fixed_client 200 "[]") "rock & roll=1" 5
             (MemoryCache_new 10) (MemoryCache_new 10) Hget).
  reflexivity.
Defined.

(** ** Further properties of the code *)

(** *** The in-memory store *)

Lemma lookup_remove_key_other (k k' : string) l :
  k <> k' -> lookup k' (remove_key k l) = lookup k' l.
Proof.
  intros Hne. induction l as [| [a v] l IH]; simpl; [reflexivity |].
  destruct (String.eqb_spec a k) as [-> | Hak]; simpl.
  - destruct (String.eqb_spec k k'); [contradiction | exact IH].
  - destruct (String.eqb a k'); [reflexivity | exact IH].
Qed.

Lemma lookup_removelast (k : string) l :
  lookup k (removelast l) = lookup k l \/ lookup k (removelast l) = None.
Proof.
  induction l as [| [a v] l IH]; [left; reflexivity |].
  destruct l as [| p l]; [right; reflexivity |].
  change (removelast ((a, v) :: p :: l)) with ((a, v) :: removelast (p :: l)).
  assert (E1 : lookup k ((a, v) :: removelast (p :: l)) =
                if String.eqb a k then Some v else lookup k (removelast (p :: l))) by reflexivity.
  assert (E2 : lookup k ((a, v) :: p :: l) =
                if String.eqb a k then Some v else lookup k (p :: l)) by reflexivity.
  rewrite E1, E2. destruct (String.eqb a k); [left; reflexivity | exact IH].
Qed.

Lemma lookup_lru_get (k k' : string) c :
  lookup k' (entries (snd (lru_get k c))) = lookup k' (entries c).
Proof.
  unfold lru_get. destruct (lookup k (entries c)) as [v |] eqn:Hk; [simpl | reflexivity].
  destruct (String.eqb_spec k k') as [<- | Hne].
  - symmetry. exact Hk.
  - apply lookup_remove_key_other, Hne.
Qed.

Lemma lookup_lru_put_same (k : string) v c :
  cap c <> 0%N -> lookup k (entries (lru_put k v c)) = Some v.
Proof.
  intros Hc. unfold lru_put. destruct (N.eqb_spec (cap c) 0) as [E | _]; [contradiction |].
  destruct (lookup k (entries c)); [| destruct (_ =? _)%N]; simpl;
    rewrite String.eqb_refl; reflexivity.
Qed.

Lemma lookup_lru_put_other (k k' : string) v c :
  k <> k' ->
  (lookup k' (entries (lru_put k v c)) = lookup k' (entries c) \/
   lookup k' (entries (lru_put k v c)) = None) /\
  (lookup k (entries c) <> None \/ N.of_nat (length (entries c)) <> cap c ->
   lookup k' (entries (lru_put k v c)) = lookup k' (entries c)).
Proof.
  intros Hne. unfold lru_put.
  destruct (N.eqb_spec (cap c) 0) as [_ | _]; [split; [left |]; reflexivity |].
  assert (Hhead : forall l, lookup k' ((k, v) :: l) = lookup k' l).
  { intros l. simpl. destruct (String.eqb_spec k k'); [contradiction | reflexivity]. }
  destruct (lookup k (entries c)) as [v0 |] eqn:Hk.
  - cbn [entries]. rewrite Hhead, lookup_remove_key_other by exact Hne.
    split; [left |]; reflexivity.
  - destruct (N.eqb_spec (N.of_nat (length (entries c))) (cap c)) as [Hf | Hf];
      cbn [entries]; rewrite Hhead.
    + split; [apply lookup_removelast |]. intros [E | E]; contradiction.
    + split; [left |]; reflexivity.
Qed.

(** X: [MemoryCache::get] returns the value stored under the key, if any,
    and changes no stored value: it only reorders the entries. *)
Theorem memory_get_keeps_values (k : string) (m : MemoryCache) :
  fst (cache_get k m) = lookup k (entries (mc_cache m)) /\
  forall k', lookup k' (entries (mc_cache (snd (cache_get k m)))) = lookup k' (entries (mc_cache m)).
Proof.
  destruct m as [c]. simpl. pose proof (lookup_lru_get k) as Hl.
  unfold lru_get in *. destruct (lookup k (entries c)) eqn:E; simpl;
    split; try reflexivity; intros k'; specialize (Hl k' c); rewrite E in Hl; exact Hl.
Qed.

(** X: [MemoryCache::set(k, v)] leaves the value of every other key as it
    was or drops it (the one eviction); when [k] was already stored or the
    store was not full, every other key keeps its value. *)
Theorem memory_set_other_keys (k k' : string) (v : list RadioStation) (m : MemoryCache) :
  k <> k' ->
  (lookup k' (entries (mc_cache (cache_set k v m))) = lookup k' (entries (mc_cache m)) \/
   lookup k' (entries (mc_cache (cache_set k v m))) = None) /\
  (lookup k (entries (mc_cache m)) <> None \/
   N.of_nat (length (entries (mc_cache m))) <> cap (mc_cache m) ->
   lookup k' (entries (mc_cache (cache_set k v m))) = lookup k' (entries (mc_cache m))).
Proof. intros Hne. exact (lookup_lru_put_other k k' v (mc_cache m) Hne). Qed.

Lemma run_ops_last_set (ops : list cache_op) (m : MemoryCache) acc :
  (forall k v, lookup k (entries (mc_cache m)) = Some v -> acc k = Some v) ->
  (cap (mc_cache m) = 0%N -> entries (mc_cache m) = []) ->
  forall k v, lookup k (entries (mc_cache (run_ops m ops))) = Some v ->
              fold_left set_step ops acc k = Some v.
Proof.
  revert m acc. induction ops as [| op ops IH]; intros m acc Hacc Hzero; [exact Hacc |].
  simpl. apply IH.
  - intros k v Hl. destruct op as [k0 | k0 v0].
    + change (run_op m (OpGet k0)) with (snd (cache_get k0 m)) in Hl. apply Hacc. rewrite <- (proj2 (memory_get_keeps_values k0 m) k). exact Hl.
    + change (mc_cache (run_op m (OpSet k0 v0))) with (lru_put k0 v0 (mc_cache m)) in Hl.
      cbn [set_step].
      destruct (N.eqb_spec (cap (mc_cache m)) 0) as [Hc | Hc].
      * unfold lru_put in Hl. rewrite Hc in Hl. simpl in Hl.
        rewrite (Hzero Hc) in Hl. discriminate.
      * destruct (String.eqb_spec k0 k) as [<- | Hne].
        -- rewrite (lookup_lru_put_same k0 v0 _ Hc) in Hl. exact Hl.
        -- destruct (proj1 (lookup_lru_put_other k0 k v0 (mc_cache m) Hne)) as [E | E];
             rewrite E in Hl; [| discriminate].
           destruct (String.eqb_spec k0 k); [contradiction | apply Hacc, Hl].
  - intros Hc. pose proof (run_ops_cap m [op]) as Hcap. simpl in Hcap.
    rewrite Hcap in Hc. specialize (Hzero Hc).
    destruct m as [c]. simpl in Hc, Hzero. destruct op as [k0 | k0 v0]; simpl.
    + unfold lru_get. rewrite Hzero. exact Hzero.
    + unfold lru_put. rewrite Hc. exact Hzero.
Qed.

(** X: no stale value: whatever a [MemoryCache] built by [new] holds under
    a key, after any sequence of [get]/[set] calls, is the value of the
    last [set] of that key. *)
Theorem memory_cache_holds_last_set (capacity : N) (ops : list cache_op) (k : string)
    (v : list RadioStation) :
  lookup k (entries (mc_cache (run_ops (MemoryCache_new capacity) ops))) = Some v ->
  last_set ops k = Some v.
Proof.
  apply run_ops_last_set; simpl; [discriminate | reflexivity].
Qed.

(** *** The lookup client *)

Lemma is_success_iff (st : Z) : is_success st = true <-> (200 <= st < 300)%Z.
Proof. unfold is_success. rewrite andb_true_iff, Z.leb_le, Z.ltb_lt. reflexivity. Qed.

Lemma memory_get_None (k : string) (m m1 : MemoryCache) :
  cache_get k m = (None, m1) -> m1 = m.
Proof.
  destruct m as [c]. simpl. unfold lru_get.
  destruct (lookup k (entries c)); intros E; inversion E; reflexivity.
Qed.

Lemma memory_get_cap (k : string) (m : MemoryCache) :
  cap (mc_cache (snd (cache_get k m))) = cap (mc_cache m).
Proof. exact (run_ops_cap m [OpGet k]). Qed.

Section ExtraClient.

Context {S : Type} `{Cache S}.
Variable decode : string -> result (list RadioStation) string.

Lemma fetch_stations_result (cl : RadioBrowserClient) (u : string) (s : S) :
  fst (fst (fetch_stations decode cl u s)) =
  match client cl u with
  | Err e => Err (RequestError e)
  | Ok r =>
      if is_success (status r)
      then match json decode r with Ok v => Ok v | Err e => Err (RequestError e) end
      else match body r with Ok t => Err (ApiError t) | Err e => Err (RequestError e) end
  end.
Proof.
  unfold fetch_stations, bind, send.
  destruct (client cl u) as [r | e]; [| reflexivity].
  destruct (is_success (status r)); simpl; unfold lift, text;
    [destruct (json decode r) | destruct (body r)]; reflexivity.
Qed.

(** X: [fetch_stations] succeeds with [v] exactly when the request goes
    through, the status is in 200..=299, the body is read and it decodes
    to [v]. *)
Theorem fetch_stations_ok_iff (cl : RadioBrowserClient) (u : string) (s : S) v :
  fst (fst (fetch_stations decode cl u s)) = Ok v <->
  exists r t, client cl u = Ok r /\ (200 <= status r < 300)%Z /\ body r = Ok t /\ decode t = Ok v.
Proof.
  rewrite fetch_stations_result. split.
  - destruct (client cl u) as [r | e]; [| discriminate].
    destruct (is_success (status r)) eqn:Hs; [| destruct (body r); discriminate].
    unfold json. destruct (body r) as [t | e] eqn:Hb; [| discriminate].
    destruct (decode t) as [v' | m] eqn:Hd; [| discriminate]. intros E. injection E as ->.
    exists r, t. rewrite <- is_success_iff. auto.
  - intros (r & t & Hc & Hs & Hb & Hd). rewrite Hc. apply is_success_iff in Hs. rewrite Hs.
    unfold json. rewrite Hb, Hd. reflexivity.
Qed.

(** X: [fetch_stations] fails with [ApiError t] exactly when the request
    goes through with a status outside 200..=299 and the body read is [t];
    every other failure is a [RequestError]. *)
Theorem fetch_stations_api_error_iff (cl : RadioBrowserClient) (u : string) (s : S) t :
  fst (fst (fetch_stations decode cl u s)) = Err (ApiError t) <->
  exists r, client cl u = Ok r /\ ~ (200 <= status r < 300)%Z /\ body r = Ok t.
Proof.
  rewrite fetch_stations_result. split.
  - destruct (client cl u) as [r | e]; [| discriminate].
    destruct (is_success (status r)) eqn:Hs.
    + unfold json. destruct (body r) as [t' |]; [destruct (decode t') |]; discriminate.
    + destruct (body r) as [t' |] eqn:Hb; [| discriminate]. intros E. injection E as ->.
      exists r. rewrite <- is_success_iff, Hs. auto.
  - intros (r & Hc & Hs & Hb). rewrite Hc.
    destruct (is_success (status r)) eqn:Hs'; [apply is_success_iff in Hs'; contradiction |].
    rewrite Hb. reflexivity.
Qed.


End ExtraClient.

Section ExtraMemoryClient.

Variable decode : string -> result (list RadioStation) string.

(** X: with a [MemoryCache] of capacity at least one, once a call has
    returned [Ok v] (from the cache or from a fetch), the same call again
    returns [Ok v] from the cache, with no transport call, whatever the
    transport and decoder are then. *)
Theorem search_by_tag_repeat_from_cache (cl : RadioBrowserClient) tag limit
    (m m1 : MemoryCache) v log :
  (1 <= cap (mc_cache m))%N ->
  search_by_tag decode cl tag limit m = (Ok v, m1, log) ->
  forall (cl' : RadioBrowserClient) decode', exists m2,
    search_by_tag decode' cl' tag limit m1 = (Ok v, m2, [EvGet (cache_key tag limit)]).
Proof.
  intros Hc Hrun cl' decode'.
  assert (Hhit : fst (cache_get (cache_key tag limit) m1) = Some v).
  { destruct (cache_get (cache_key tag limit) m) as [[v0 |] s1] eqn:E.
    - rewrite (search_by_tag_on_hit decode cl tag limit m s1 v0 E) in Hrun.
      injection Hrun as -> -> _.
      destruct (memory_get_keeps_values (cache_key tag limit) m) as [H1 H2].
      rewrite E in H1, H2. simpl in H1, H2.
      rewrite (proj1 (memory_get_keeps_values (cache_key tag limit) m1)), H2. symmetry; exact H1.
    - rewrite (search_by_tag_miss decode cl tag limit m s1 E) in Hrun.
      destruct (fetch_stations decode cl (search_url cl tag limit) s1) as [[[v' | e] ?] ?];
        [| discriminate].
      injection Hrun as -> <- _. apply memory_get_set.
      pose proof (memory_get_cap (cache_key tag limit) m) as Hcap. rewrite E in Hcap.
      simpl in Hcap. rewrite Hcap. exact Hc. }
  destruct (cache_get (cache_key tag limit) m1) as [o m2] eqn:E2. simpl in Hhit. subst o.
  exists m2. apply search_by_tag_on_hit. exact E2.
Qed.

(** X: errors are not cached: a call on a [MemoryCache] that returns an
    error leaves the cache as it was, and the same call again goes to the
    transport. *)
Theorem search_by_tag_error_not_cached (cl : RadioBrowserClient) tag limit (m m1 : MemoryCache) e log :
  search_by_tag decode cl tag limit m = (Err e, m1, log) ->
  m1 = m /\
  forall (cl' : RadioBrowserClient) decode', exists r m2 rest,
    search_by_tag decode' cl' tag limit m1 =
    (r, m2, EvGet (cache_key tag limit) :: EvFetch (search_url cl' tag limit) :: rest).
Proof.
  intros Hrun.
  destruct (cache_get (cache_key tag limit) m) as [[v0 |] s1] eqn:E.
  - rewrite (search_by_tag_on_hit decode cl tag limit m s1 v0 E) in Hrun. discriminate.
  - pose proof (memory_get_None _ _ _ E) as ->.
    rewrite (search_by_tag_miss decode cl tag limit m m E) in Hrun.
    destruct (fetch_stations decode cl (search_url cl tag limit) m) as [[[v' | e'] ?] ?];
      [discriminate |].
    injection Hrun as _ <- _. split; [reflexivity |]. intros cl' decode'.
    rewrite (search_by_tag_miss decode' cl' tag limit m m E).
    destruct (fetch_stations decode' cl' (search_url cl' tag limit) m) as [[[v | e2] ?] ?];
      eauto.
Qed.

(** X: a client from [RadioBrowserClient::new] starts with an empty cache,
    so its first search goes to the transport, at
    ["https://de1.api.radio-browser.info/json/stations/search?tag=<tag>&limit=<limit>"];
    after [with_base_url(b)] the same holds with [b] in place of the
    default host. *)
Theorem new_client_first_search_fetches (transport : string -> result Response reqwest_error)
    (b tag : string) (limit : N) :
  (exists r m rest,
     search_by_tag decode (cfg_client (RadioBrowserClient_new transport)) tag limit
       (cfg_cache (RadioBrowserClient_new transport)) =
     (r, m, EvGet (cache_key tag limit) ::
            EvFetch ("https://de1.api.radio-browser.info/json/stations/search?tag=" ++ tag ++
                     "&limit=" ++ usize_to_string limit) :: rest)) /\
  (exists r m rest,
     search_by_tag decode (cfg_client (with_base_url (RadioBrowserClient_new transport) b)) tag limit
       (cfg_cache (with_base_url (RadioBrowserClient_new transport) b)) =
     (r, m, EvGet (cache_key tag limit) ::
            EvFetch (b ++ "/json/stations/search?tag=" ++ tag ++ "&limit=" ++ usize_to_string limit)
            :: rest)).
Proof.
  assert (E : cache_get (cache_key tag limit) (MemoryCache_new 100) = (None, MemoryCache_new 100))
    by reflexivity.
  split.
  - cbn [RadioBrowserClient_new cfg_client cfg_cache].
    rewrite (search_by_tag_miss decode _ tag limit _ _ E).
    destruct (fetch_stations _ _ _ _) as [[[v | e] ?] ?]; eauto.
  - cbn [with_base_url RadioBrowserClient_new cfg_client cfg_cache].
    rewrite (search_by_tag_miss decode _ tag limit _ _ E).
    destruct (fetch_stations _ _ _ _) as [[[v | e] ?] ?]; eauto.
Qed.

(** X: the test module's [TestCache], installed with [with_cache] and
    empty, stores the first fetched list; since it ignores keys, every
    later search, for any tag and limit, returns that list from the cache
    without a transport call. *)
Theorem test_cache_serves_first_result (transport : string -> result Response reqwest_error)
    tag limit v (t1 : TestCache) log :
  search_by_tag decode (cfg_client (with_cache (RadioBrowserClient_new transport) (mkTestCache None)))
    tag limit (cfg_cache (with_cache (RadioBrowserClient_new transport) (mkTestCache None))) =
  (Ok v, t1, log) ->
  t1 = mkTestCache (Some v) /\
  forall (cl' : RadioBrowserClient) decode' tag' limit',
    search_by_tag decode' cl' tag' limit' t1 = (Ok v, t1, [EvGet (cache_key tag' limit')]).
Proof.
  cbn [with_cache RadioBrowserClient_new cfg_client cfg_cache].
  assert (E : cache_get (cache_key tag limit) (mkTestCache None) = (None, mkTestCache None))
    by reflexivity.
  rewrite (search_by_tag_miss decode _ tag limit _ _ E).
  destruct (fetch_stations _ _ _ _) as [[[v' | e] ?] ?]; [| discriminate].
  intros Hrun. injection Hrun as -> <- _. split; [reflexivity |].
  intros cl' decode' tag' limit'. apply search_by_tag_on_hit. reflexivity.
Qed.

End ExtraMemoryClient.

(** *** Witnesses for the properties above *)

Lemma memory_set_other_keys_witness :
  lookup "search:rock:5" (entries (mc_cache (cache_set "search:jazz:5" [] hit_cache)))
  = Some [test_station].
Proof.
  destruct (memory_set_other_keys "search:jazz:5" "search:rock:5" [] hit_cache) as [_ H2];
    [discriminate |].
  apply H2. right. vm_compute. intros E. discriminate E.
Defined.

Lemma memory_cache_holds_last_set_witness :
  last_set [OpSet "a" [test_station]; OpGet "a"; OpSet "a" []] "a" = Some [].
Proof.
  apply (memory_cache_holds_last_set 2 [OpSet "a" [test_station]; OpGet "a"; OpSet "a" []] "a" []).
  reflexivity.
Defined.

Lemma search_by_tag_repeat_from_cache_witness :
  exists m2,
    search_by_tag test_decode unreachable_client "test" 1
      (cache_set (cache_key "test" 1) [test_station] (MemoryCache_new 10)) =
    (Ok [test_station], m2, [EvGet (cache_key "test" 1)]).
Proof.
  apply (search_by_tag_repeat_from_cache test_decode (fixed_client 200 test_body) "test" 1
           (MemoryCache_new 10) (cache_set (cache_key "test" 1) [test_station] (MemoryCache_new 10))
           [test_station]
           [EvGet (cache_key "test" 1); EvFetch (search_url (fixed_client 200 test_body) "test" 1);
            EvSet (cache_key "test" 1) [test_station]]);
    [simpl; lia | reflexivity].
Defined.

Lemma search_by_tag_error_not_cached_witness :
  hit_cache = hit_cache /\
  exists r m2 rest,
    search_by_tag test_decode (fixed_client 200 "[]") "jazz" 5 hit_cache =
    (r, m2, EvGet (cache_key "jazz" 5) :: EvFetch (search_url (fixed_client 200 "[]") "jazz" 5) :: rest).
Proof.
  destruct (search_by_tag_error_not_cached test_decode unreachable_client "jazz" 5 hit_cache hit_cache
              (RequestError (ReqConnect "connection refused"))
              [EvGet (cache_key "jazz" 5); EvFetch (search_url unreachable_client "jazz" 5)])
    as [Heq Hall]; [reflexivity |].
  split; [exact Heq | apply Hall].
Defined.

Lemma test_cache_serves_first_result_witness :
  search_by_tag test_decode unreachable_client "other" 7 (mkTestCache (Some [test_station])) =
  (Ok [test_station], mkTestCache (Some [test_station]), [EvGet (cache_key "other" 7)]).
Proof.
  destruct (test_cache_serves_first_result test_decode (fun _ => Ok (mkResponse 200 (Ok test_body)))
              "test" 1 [test_station] (mkTestCache (Some [test_station]))
              [EvGet (cache_key "test" 1);
               EvFetch (default_base_url ++ "/json/stations/search?tag=test&limit=1");
               EvSet (cache_key "test" 1) [test_station]])
    as [_ Hall]; [reflexivity |].
  apply Hall.
Defined.
